(** * ecctrl: the per-frame update of the example character controller

    Shallow embedding of [src/example/Controller/index.tsx]: the direction
    table [getMovingDirection] and the [useFrame] callback of [Controller]
    (velocity written to the rigid body, facing angle, camera pivot follow).

    Numbers.  JavaScript numbers are IEEE-754 doubles; here they are the real
    numbers of the Standard Library, so [Math.PI] is [PI], [Math.sqrt] is
    [sqrt] and [Math.exp] is [exp], and no rounding, infinity or NaN is
    modelled.  Every statement below is about this idealised arithmetic.

    Effects.  The callback mutates objects it shares with the host (the
    rigid body, the model node, the pivot, the camera).  They are gathered in
    one record [World] that the callback transforms; a callback either
    returns or throws, and in both cases the writes made so far stay. *)

From Stdlib Require Import Reals Lra Lia List Bool Arith.
From Stdlib Require String.
Import ListNotations.
Import String.StringSyntax.
Delimit Scope string_scope with string.

Open Scope R_scope.

(** ** three.js values used by the controller *)

Module THREE.

Record Vector3 : Type := mkVector3 { x : R; y : R; z : R }.

(** [Vector3.lerp(v, alpha)]: each component moves by
    [(v.c - this.c) * alpha]. *)
Definition lerp (this v : Vector3) (alpha : R) : Vector3 :=
  mkVector3 (x this + (x v - x this) * alpha)
            (y this + (y v - y this) * alpha)
            (z this + (z v - z this) * alpha).

(** [Vector3.distanceTo(v)]. *)
Definition distanceTo (this v : Vector3) : R :=
  sqrt ((x this - x v) * (x this - x v)
        + (y this - y v) * (y this - y v)
        + (z this - z v) * (z this - z v)).

End THREE.

(** What a JavaScript function of declared type [number | null] can hand
    back at run time: a number, [null], or [undefined] when control falls
    off the end of the body. *)
Inductive JsValue : Type :=
| JNumber (n : R)
| JNull
| JUndefined.

(** The camera pivot, a [THREE.Object3D]: only its yaw and position are
    read or written by the controller. *)
Record Object3D : Type := mkObject3D {
  rotation_y : R;
  position : THREE.Vector3
}.

(** ** getMovingDirection (index.tsx, lines 10-26) *)

Definition getMovingDirection
  (forward backward leftward rightward : bool) (pivot : Object3D) : JsValue :=
  if negb forward && negb backward && negb leftward && negb rightward
  then JNull
  else if forward && leftward then JNumber (rotation_y pivot + PI / 4)
  else if forward && rightward then JNumber (rotation_y pivot - PI / 4)
  else if backward && leftward then JNumber (rotation_y pivot - PI / 4 + PI)
  else if backward && rightward then JNumber (rotation_y pivot + PI / 4 + PI)
  else if backward then JNumber (rotation_y pivot + PI)
  else if leftward then JNumber (rotation_y pivot + PI / 2)
  else if rightward then JNumber (rotation_y pivot - PI / 2)
  else if forward then JNumber (rotation_y pivot)
  else JUndefined.

(** ** Props and their defaults (index.tsx, lines 29-93; types.ts) *)

(** The optional props the frame callback reads.  [None] is a prop that the
    parent left out ([undefined]). *)
Record EcctrlProps : Type := mkProps {
  p_capsuleHalfHeight : option R;
  p_capsuleRadius : option R;
  p_camTargetPos : option THREE.Vector3;
  p_camCollision : option bool;
  p_turnSpeed : option R;
  p_sprintMult : option R;
  p_jumpVel : option R;
  p_sprintJumpMult : option R;
  p_camFollowMult : option R
}.

Record Config : Type := mkConfig {
  capsuleHalfHeight : R;
  capsuleRadius : R;
  camTargetPos : THREE.Vector3;
  camCollision : bool;
  turnSpeed : R;
  sprintMult : R;
  jumpVel : R;
  sprintJumpMult : R;
  camFollowMult : R
}.

(** A destructuring default is taken exactly when the prop is [undefined]. *)
Definition orDefault {A : Type} (v : option A) (d : A) : A :=
  match v with
  | Some a => a
  | None => d
  end.

Definition destructure (p : EcctrlProps) : Config :=
  mkConfig
    (orDefault (p_capsuleHalfHeight p) (35 / 100))
    (orDefault (p_capsuleRadius p) (3 / 10))
    (orDefault (p_camTargetPos p) (THREE.mkVector3 0 0 0))
    (orDefault (p_camCollision p) true)
    (orDefault (p_turnSpeed p) 15)
    (orDefault (p_sprintMult p) 2)
    (orDefault (p_jumpVel p) 4)
    (orDefault (p_sprintJumpMult p) (12 / 10))
    (orDefault (p_camFollowMult p) 11).

(** No prop given: every default applies. *)
Definition noProps : EcctrlProps :=
  mkProps None None None None None None None None None.

(** ** Keyboard state *)

(** The object returned by [getKeys()]; its entries are the six flags of the
    keyboard map. *)
Record Keys : Type := mkKeys {
  forward : bool;
  backward : bool;
  leftward : bool;
  rightward : bool;
  jump : bool;
  run : bool
}.

(** [Object.values(keys)]. *)
Definition Object_values (keys : Keys) : list bool :=
  [forward keys; backward keys; leftward keys; rightward keys;
   jump keys; run keys].

(** [Object.values(keys).filter((key) => key).length] *)
Definition nbOfKeysPressed (keys : Keys) : nat :=
  length (filter (fun key => key) (Object_values keys)).

(** ** Speed and impulse (index.tsx, lines 139-154) *)

Definition speed : R := 150.

Definition normalizedSpeed (keys : Keys) (delta : R) : R :=
  if Nat.eqb (nbOfKeysPressed keys) 1
  then speed * delta
  else sqrt 2 * (speed / 2) * delta.

Definition runSpeed (cfg : Config) (keys : Keys) (delta : R) : R :=
  if run keys then normalizedSpeed keys delta * sprintMult cfg else 1.

Definition impulse (cfg : Config) (keys : Keys) (delta linvelY : R)
  : THREE.Vector3 :=
  THREE.mkVector3
    (if leftward keys then - runSpeed cfg keys delta
     else if rightward keys then runSpeed cfg keys delta else 0)
    (if jump keys
     then (if run keys then sprintJumpMult cfg * jumpVel cfg else jumpVel cfg)
     else linvelY)
    (if forward keys then - runSpeed cfg keys delta
     else if backward keys then runSpeed cfg keys delta else 0).

(** Length of the horizontal part of a vector. *)
Definition planarMagnitude (v : THREE.Vector3) : R :=
  sqrt (THREE.x v * THREE.x v + THREE.z v * THREE.z v).

(** ** Camera target (index.tsx, lines 174-178) *)

(** [a || b] on numbers: [b] when [a] is zero. *)
Definition orElse (a b : R) : R :=
  if Req_dec_T a 0 then b else a.

Definition pivotTarget (cfg : Config) (currentPos : THREE.Vector3)
  : THREE.Vector3 :=
  THREE.mkVector3
    (THREE.x currentPos + THREE.x (camTargetPos cfg))
    (THREE.y currentPos
     + orElse (THREE.y (camTargetPos cfg))
              (capsuleHalfHeight cfg + capsuleRadius cfg / 2))
    (THREE.z currentPos + THREE.z (camTargetPos cfg)).

Definition followFactor (cfg : Config) (delta : R) : R :=
  1 - exp (- camFollowMult cfg * delta).

(** ** The objects around the callback *)

(** [THREE.Euler]; [new THREE.Euler()] is all zero.  The callback stores in
    [y] whatever [getMovingDirection] handed back when that is not [null]. *)
Record Euler : Type := mkEuler {
  euler_x : R;
  euler_y : JsValue;
  euler_z : R
}.

(** The part of the host the callback calls into: three.js quaternions and
    cameras, and the collision routine returned by the [useFollowCam]
    hook. *)
Class Host : Type := {
  Quaternion : Type;
  Camera : Type;
  (** [Quaternion.setFromEuler(euler)] overwrites the four components. *)
  setFromEuler : Euler -> Quaternion;
  (** [q.rotateTowards(target, step)] *)
  rotateTowards : Quaternion -> Quaternion -> R -> Quaternion;
  (** [camera.lookAt(point)] *)
  lookAt : THREE.Vector3 -> Camera -> Camera;
  (** Modelled from the spec: [cameraCollisionDetect] of the hook
      [useFollowCam], whose file is missing.  Section 4.2 describes it as a
      ray cast from the character toward the camera that clamps the camera
      distance; it reads the pivot and acts on the camera rig only. *)
  cameraCollisionDetect : R -> Object3D -> Camera -> Camera
}.

Section Controller.

Context `{H : Host}.

(** The Rapier rigid body behind [characterRef.current]. *)
Record RigidBody : Type := mkRigidBody {
  translation : THREE.Vector3;
  linvel : THREE.Vector3
}.

(** The [<group>] behind [characterModelRef.current]. *)
Record Group : Type := mkGroup {
  quaternion : Quaternion
}.

Record World : Type := mkWorld {
  characterRef_current : option RigidBody;
  characterModelRef_current : option Group;
  currentPos : THREE.Vector3;
  pivotPosition : THREE.Vector3;
  modelEuler : Euler;
  modelQuat : Quaternion;
  pivot : Object3D;
  camera : Camera
}.

(** How a call of the callback ends.  [Thrown] is the [TypeError] of
    reading a property of [undefined]; it carries the world as the writes
    made before the throw left it. *)
Inductive Outcome : Type :=
| Returned (w : World)
| Thrown (w : World).

(** The world an outcome leaves behind. *)
Definition worldOf (o : Outcome) : World :=
  match o with
  | Returned w => w
  | Thrown w => w
  end.

(** [movingDirection === null ? modelEuler.y : movingDirection] *)
Definition facing (previous movingDirection : JsValue) : JsValue :=
  match movingDirection with
  | JNull => previous
  | _ => movingDirection
  end.

(** ** The useFrame callback (index.tsx, lines 122-182) *)

Definition useFrame_callback
  (p : EcctrlProps) (keys : Keys) (w : World) (delta : R) : Outcome :=
  let cfg := destructure p in
  match characterRef_current w with
  | None => Returned w
  | Some body =>
    let currentPos' := translation body in
    let modelEuler' :=
      mkEuler (euler_x (modelEuler w))
              (facing (euler_y (modelEuler w))
                      (getMovingDirection (forward keys) (backward keys)
                         (leftward keys) (rightward keys) (pivot w)))
              (euler_z (modelEuler w)) in
    let linvelY := THREE.y (linvel body) in
    let body' := mkRigidBody (translation body)
                             (impulse cfg keys delta linvelY) in
    let camera' :=
      if camCollision cfg
      then cameraCollisionDetect delta (pivot w) (camera w)
      else camera w in
    let modelQuat' := setFromEuler modelEuler' in
    match characterModelRef_current w with
    | None =>
      Thrown (mkWorld (Some body') None currentPos' (pivotPosition w)
                      modelEuler' modelQuat' (pivot w) camera')
    | Some model =>
      let model' :=
        mkGroup (rotateTowards (quaternion model) modelQuat'
                               (delta * turnSpeed cfg)) in
      let pivotPosition' := pivotTarget cfg currentPos' in
      let pivot' :=
        mkObject3D (rotation_y (pivot w))
                   (THREE.lerp (position (pivot w)) pivotPosition'
                               (followFactor cfg delta)) in
      Returned (mkWorld (Some body') (Some model') currentPos'
                        pivotPosition' modelEuler' modelQuat' pivot'
                        (lookAt (position pivot') camera'))
    end
  end.

(** The vector handed to [setLinvel] in a frame whose rigid body is
    [body]. *)
Definition writtenImpulse
  (p : EcctrlProps) (keys : Keys) (body : RigidBody) (delta : R)
  : THREE.Vector3 :=
  impulse (destructure p) keys delta (THREE.y (linvel body)).

(** Successive frames with the same [delta], one key state per frame; the
    host does not step the rigid body in between, so the character stays
    where it is.  A throw leaves the render loop. *)
Fixpoint frames
  (p : EcctrlProps) (delta : R) (inputs : list Keys) (w : World)
  : Outcome :=
  match inputs with
  | [] => Returned w
  | keys :: rest =>
    match useFrame_callback p keys w delta with
    | Returned w' => frames p delta rest w'
    | Thrown w' => Thrown w'
    end
  end.

End Controller.

(** ** Section 4.1 of the specification, as it is worded *)

(** The nine priority-ordered rules over the camera yaw [base]: each pairs
    its condition with the facing it gives; rule 1 holds the previous facing
    ([null]). *)
Definition priorityRules (f b l r : bool) (base : R) : list (bool * JsValue) :=
  [ (negb (f || b || l || r), JNull);
    (f && l, JNumber (base + PI / 4));
    (f && r, JNumber (base - PI / 4));
    (b && l, JNumber (base - PI / 4 + PI));
    (b && r, JNumber (base + PI / 4 + PI));
    (b, JNumber (base + PI));
    (l, JNumber (base + PI / 2));
    (r, JNumber (base - PI / 2));
    (f, JNumber (base)) ].

(** First match wins; a combination that no rule handles is [undefined]. *)
Fixpoint firstMatch (rules : list (bool * JsValue)) : JsValue :=
  match rules with
  | [] => JUndefined
  | (true, v) :: _ => v
  | (false, _) :: rest => firstMatch rest
  end.

Definition priorityTable (f b l r : bool) (base : R) : JsValue :=
  firstMatch (priorityRules f b l r base).

(** ** Section 4.2 of the specification, as it is worded *)



(** ** Key states and frames used in the statements *)

(** Number of directional flags that are set. *)
Definition nbOfDirections (keys : Keys) : nat :=
  length (filter (fun key => key)
            [forward keys; backward keys; leftward keys; rightward keys]).

(** One of forward/backward together with one of leftward/rightward. *)
Definition twoOrthogonal (keys : Keys) : bool :=
  xorb (forward keys) (backward keys) && xorb (leftward keys) (rightward keys).

(** A host with the least content: a quaternion is the yaw it was set
    from, a camera is the point it looks at, and nothing occludes it. *)
Definition yawOf (e : Euler) : R :=
  match euler_y e with
  | JNumber n => n
  | _ => 0
  end.

Definition yawHost : Host := {|
  Quaternion := R;
  Camera := THREE.Vector3;
  setFromEuler := yawOf;
  rotateTowards := fun q target step =>
    if Rle_dec (Rabs (target - q)) step then target
    else if Rle_dec q target then q + step else q - step;
  lookAt := fun point _ => point;
  cameraCollisionDetect := fun _ _ cam => cam
|}.

Definition origin : THREE.Vector3 := THREE.mkVector3 0 0 0.

(** A character at rest in the origin, facing along the camera yaw [0],
    with the pivot three units behind and above. *)
Definition restBody : RigidBody := mkRigidBody origin origin.

Definition restWorld (H : Host) (q : @Quaternion H) (cam : @Camera H)
  (body : option RigidBody) (model : option (@Group H)) : @World H :=
  mkWorld body model origin origin (mkEuler 0 (JNumber 0) 0) q
          (mkObject3D 0 (THREE.mkVector3 0 3 3)) cam.

Definition yawWorld (body : option RigidBody) (model : option (@Group yawHost))
  : @World yawHost :=
  restWorld yawHost 0 origin body model.

Definition yawModel : @Group yawHost := @mkGroup yawHost 0.

(** Both handles attached; the model node missing; the rigid body missing. *)
Definition readyWorld : @World yawHost :=
  yawWorld (Some restBody) (Some yawModel).
Definition modellessWorld : @World yawHost :=
  yawWorld (Some restBody) None.
Definition bodilessWorld : @World yawHost :=
  yawWorld None (Some yawModel).

Definition noKeys : Keys := mkKeys false false false false false false.
Definition jumpRun : Keys := mkKeys false false false false true true.
Definition forwardOnly : Keys := mkKeys true false false false false false.
Definition forwardLeft : Keys := mkKeys true false true false false false.
Definition forwardLeftRun : Keys := mkKeys true false true false false true.
Definition forwardRun : Keys := mkKeys true false false false false true.
Definition forwardBackward : Keys := mkKeys true true false false false false.
Definition leftRight : Keys := mkKeys false false true true false false.

(** ** The rigid body element (index.tsx, lines 184-193) *)

(** The values a prop of the [<RigidBody>] element can hold here. *)
Inductive PropValue : Type :=
| PUndefined
| PNumber (n : R)
| PBoolean (b : bool)
| PArray (items : list R)
| PObject.

(** A JavaScript object as its own enumerable properties, in insertion
    order; a well-formed one names each key once. *)
Definition JsObject : Type := list (String.string * PropValue).

Definition keysOf (o : JsObject) : list String.string := map fst o.

(** [key in o] *)
Fixpoint has (o : JsObject) (key : String.string) : bool :=
  match o with
  | [] => false
  | (k, _) :: rest => if String.eqb k key then true else has rest key
  end.

(** [o.key]: a property that is not there reads as [undefined]. *)
Fixpoint get (o : JsObject) (key : String.string) : PropValue :=
  match o with
  | [] => PUndefined
  | (k, v) :: rest => if String.eqb k key then v else get rest key
  end.

(** [o.key = v]: an existing property keeps its place, a new one goes
    last. *)
Fixpoint set (key : String.string) (v : PropValue) (o : JsObject)
  : JsObject :=
  match o with
  | [] => [(key, v)]
  | (k, v') :: rest =>
    if String.eqb k key then (k, v) :: rest else (k, v') :: set key v rest
  end.

(** [{...target, ...source}]: every own property of [source] is assigned,
    in order, whatever its value. *)
Definition spread (source target : JsObject) : JsObject :=
  fold_left (fun acc kv => set (fst kv) (snd kv) acc) source target.

(** Truthiness: [undefined], [0] and [false] are falsy, arrays and objects
    are truthy. *)
Definition truthy (v : PropValue) : bool :=
  match v with
  | PUndefined => false
  | PNumber n => if Req_dec_T n 0 then false else true
  | PBoolean b => b
  | PArray _ => true
  | PObject => true
  end.

(** [a || b] on prop values. *)
Definition orElseValue (a b : PropValue) : PropValue :=
  if truthy a then a else b.

(** The props the [<RigidBody>] element receives: the four attributes
    written before the spread, then [{...props}], the props that the
    destructuring of [Controller] left over.  ([ref] is not a prop.) *)
Definition rigidBodyProps (props : JsObject) : JsObject :=
  spread props
    [ ("colliders"%string, PBoolean false);
      ("position"%string,
       orElseValue (get props "position"%string) (PArray [0; 5; 0]));
      ("friction"%string,
       orElseValue (get props "friction"%string) (PNumber (- (5 / 10))));
      ("lockRotations"%string, PBoolean true) ].

(** ** More key states and props used in the statements *)

(** Some directional flag is set. *)
Definition hasDirection (keys : Keys) : bool :=
  forward keys || backward keys || leftward keys || rightward keys.

(** Forward and backward are set and no lateral flag is. *)
Definition forwardBackwardAlone (keys : Keys) : bool :=
  forward keys && backward keys
  && negb (leftward keys) && negb (rightward keys).

Definition backwardRightRun : Keys := mkKeys false true false true false true.

(** A parent that asks for a frictionless body standing in (1, 2, 3). *)
Definition frictionlessProps : JsObject :=
  [ ("friction"%string, PNumber 0);
    ("position"%string, PArray [1; 2; 3]) ].

(** Props with a follow multiplier of 0, and of -1. *)
Definition followProps (k : R) : EcctrlProps :=
  mkProps None None None None None None None None (Some k).

(** * Properties *)

(** ** Arithmetic used below *)

Lemma sqrt_square_abs (a : R) : sqrt (a * a) = Rabs a.
Proof. exact (sqrt_Rsqr_abs a). Qed.

Lemma planar_axis (a : R) : sqrt (0 * 0 + a * a) = Rabs a.
Proof.
  replace (0 * 0 + a * a) with (a * a) by ring.
  apply sqrt_square_abs.
Qed.

Lemma planar_axis' (a : R) : sqrt (a * a + 0 * 0) = Rabs a.
Proof.
  replace (a * a + 0 * 0) with (a * a) by ring.
  apply sqrt_square_abs.
Qed.

Lemma planar_diagonal (a b : R) :
  Rabs a = Rabs b -> sqrt (a * a + b * b) = sqrt 2 * Rabs b.
Proof.
  intros Hab.
  assert (Ha : a * a = b * b).
  { change (Rsqr a = Rsqr b). rewrite (Rsqr_abs a), (Rsqr_abs b).
    now rewrite Hab. }
  rewrite Ha.
  replace (b * b + b * b) with (2 * (b * b)) by ring.
  rewrite sqrt_mult_alt by lra.
  now rewrite sqrt_square_abs.
Qed.

Lemma sqrt2_pos : 0 < sqrt 2.
Proof. apply sqrt_lt_R0. lra. Qed.

Lemma sqrt2_square : sqrt 2 * sqrt 2 = 2.
Proof. apply sqrt_sqrt. lra. Qed.

Lemma sqrt2_bounds : 1 < sqrt 2 < 3 / 2.
Proof.
  pose proof sqrt2_pos. pose proof sqrt2_square. split; nra.
Qed.


(** One interpolation step scales the distance to the target by
    [|1 - alpha|]. *)
Lemma lerp_distance (p t : THREE.Vector3) (alpha : R) :
  THREE.distanceTo (THREE.lerp p t alpha) t
  = Rabs (1 - alpha) * THREE.distanceTo p t.
Proof.
  unfold THREE.distanceTo, THREE.lerp. cbn [THREE.x THREE.y THREE.z].
  rewrite <- sqrt_square_abs.
  rewrite <- sqrt_mult_alt by apply Rle_0_sqr.
  f_equal. ring.
Qed.

Lemma distanceTo_nonneg (p t : THREE.Vector3) : 0 <= THREE.distanceTo p t.
Proof. apply sqrt_pos. Qed.

(** ** The direction table *)

(** C1.  On each of the 16 combinations of the four directional flags
    [getMovingDirection] returns the value that the priority table of
    section 4.1 gives (first matching rule), it never falls off its end
    ([undefined]), it returns [null] exactly when no flag is set, and the
    caller then keeps the previous facing angle. *)
Theorem getMovingDirection_priority_table
  (f b l r : bool) (pivot : Object3D) :
  getMovingDirection f b l r pivot = priorityTable f b l r (rotation_y pivot)
  /\ getMovingDirection f b l r pivot <> JUndefined
  /\ (getMovingDirection f b l r pivot = JNull
      <-> f = false /\ b = false /\ l = false /\ r = false)
  /\ (forall previous,
        facing previous (getMovingDirection false false false false pivot)
        = previous).
Proof.
  split; [destruct f, b, l, r; reflexivity|].
  split; [destruct f, b, l, r; discriminate|].
  split; [|reflexivity].
  split.
  - destruct f, b, l, r; cbn; intros Hnull;
      solve [discriminate Hnull | auto].
  - intros (-> & -> & -> & ->). reflexivity.
Qed.

Section Frame.

Context `{H : Host}.

(** A frame whose rigid body is there writes [writtenImpulse] to it,
    whether or not the callback then goes on to its end. *)
Lemma callback_writes_impulse
  (p : EcctrlProps) (keys : Keys) (w : World) (body : RigidBody) (delta : R) :
  characterRef_current w = Some body ->
  characterRef_current (worldOf (useFrame_callback p keys w delta))
  = Some (mkRigidBody (translation body) (writtenImpulse p keys body delta)).
Proof.
  intros Hb. unfold useFrame_callback. rewrite Hb.
  destruct (characterModelRef_current w); reflexivity.
Qed.

(** With both handles there the callback runs to its end. *)
Lemma callback_returns
  (p : EcctrlProps) (keys : Keys) (w : World)
  (body : RigidBody) (model : Group) (delta : R) :
  characterRef_current w = Some body ->
  characterModelRef_current w = Some model ->
  exists w',
    useFrame_callback p keys w delta = Returned w'
    /\ characterRef_current w'
       = Some (mkRigidBody (translation body)
                           (writtenImpulse p keys body delta))
    /\ (exists model', characterModelRef_current w' = Some model')
    /\ pivotPosition w' = pivotTarget (destructure p) (translation body)
    /\ position (pivot w')
       = THREE.lerp (position (pivot w))
                    (pivotTarget (destructure p) (translation body))
                    (followFactor (destructure p) delta)
    /\ euler_y (modelEuler w')
       = facing (euler_y (modelEuler w))
                (getMovingDirection (forward keys) (backward keys)
                   (leftward keys) (rightward keys) (pivot w)).
Proof.
  intros Hb Hm. unfold useFrame_callback. rewrite Hb, Hm.
  eexists. split; [reflexivity|]. cbn.
  repeat split; eauto.
Qed.

(** ** The vertical component *)

(** C4.  In every frame whose rigid body is there, the vector written to
    it has as its y component [sprintJumpMult * jumpVel] when jump and run
    are both set, [jumpVel] when jump is set and run is not, and the
    body's previous vertical velocity when jump is not set. *)
Theorem impulse_vertical
  (p : EcctrlProps) (keys : Keys) (w : World) (body : RigidBody) (delta : R) :
  characterRef_current w = Some body ->
  exists body',
    characterRef_current (worldOf (useFrame_callback p keys w delta))
    = Some body'
    /\ THREE.y (linvel body')
       = match jump keys, run keys with
         | true, true =>
           sprintJumpMult (destructure p) * jumpVel (destructure p)
         | true, false => jumpVel (destructure p)
         | false, _ => THREE.y (linvel body)
         end.
Proof.
  intros Hb. eexists. split.
  - apply callback_writes_impulse, Hb.
  - cbn. destruct (jump keys), (run keys); reflexivity.
Qed.

(** ** Walking *)

(** C9.  In every frame whose run flag is not set and in which some
    directional flag is set, each horizontal component of the vector
    written to the rigid body is [0] or of magnitude exactly [1], one of
    them at least is not [0], and neither depends on the frame time, on
    the props, or on the previous velocity. *)
Theorem walk_components_unit
  (p : EcctrlProps) (keys : Keys) (w : World) (body : RigidBody) (delta : R) :
  characterRef_current w = Some body ->
  run keys = false ->
  (1 <= nbOfDirections keys)%nat ->
  exists body',
    characterRef_current (worldOf (useFrame_callback p keys w delta))
    = Some body'
    /\ (THREE.x (linvel body') = 0 \/ Rabs (THREE.x (linvel body')) = 1)
    /\ (THREE.z (linvel body') = 0 \/ Rabs (THREE.z (linvel body')) = 1)
    /\ (THREE.x (linvel body') <> 0 \/ THREE.z (linvel body') <> 0)
    /\ (forall p' delta' linvelY',
          THREE.x (impulse (destructure p') keys delta' linvelY')
          = THREE.x (linvel body')
          /\ THREE.z (impulse (destructure p') keys delta' linvelY')
             = THREE.z (linvel body')).
Proof.
  intros Hb Hrun Hdir. eexists. split.
  - apply callback_writes_impulse, Hb.
  - unfold nbOfDirections in Hdir.
    cbn [linvel writtenImpulse impulse THREE.x THREE.z].
    unfold impulse, runSpeed. rewrite Hrun.
    cbn [THREE.x THREE.z].
    assert (Hm : Rabs (Ropp 1) = 1) by (rewrite Rabs_Ropp; apply Rabs_R1).
    pose proof Rabs_R1 as Hp.
    destruct (forward keys), (backward keys), (leftward keys),
      (rightward keys); cbn in Hdir; try lia;
      repeat split; auto; first [left; lra | right; lra].
Qed.

(** ** The camera target *)

(** C10.  In every frame that runs to its end, the vertical coordinate of
    the pivot target is the character's y plus [camTargetPos.y] when that
    is not zero, and the character's y plus
    [capsuleHalfHeight + capsuleRadius / 2] when it is zero, be the zero
    the default of an absent prop or a configured value. *)
Theorem pivot_target_vertical
  (p : EcctrlProps) (keys : Keys) (w : World)
  (body : RigidBody) (model : Group) (delta : R) :
  characterRef_current w = Some body ->
  characterModelRef_current w = Some model ->
  exists w',
    useFrame_callback p keys w delta = Returned w'
    /\ (THREE.y (camTargetPos (destructure p)) <> 0 ->
        THREE.y (pivotPosition w')
        = THREE.y (translation body) + THREE.y (camTargetPos (destructure p)))
    /\ (THREE.y (camTargetPos (destructure p)) = 0 ->
        THREE.y (pivotPosition w')
        = THREE.y (translation body)
          + (capsuleHalfHeight (destructure p)
             + capsuleRadius (destructure p) / 2))
    /\ (p_camTargetPos p = None ->
        THREE.y (pivotPosition w')
        = THREE.y (translation body)
          + (capsuleHalfHeight (destructure p)
             + capsuleRadius (destructure p) / 2))
    /\ (forall v, p_camTargetPos p = Some v -> THREE.y v = 0 ->
        THREE.y (pivotPosition w')
        = THREE.y (translation body)
          + (capsuleHalfHeight (destructure p)
             + capsuleRadius (destructure p) / 2)).
Proof.
  intros Hb Hm.
  destruct (callback_returns p keys w body model delta Hb Hm)
    as (w' & Hret & _ & _ & Hpp & _).
  exists w'. split; [exact Hret|]. rewrite Hpp.
  assert (Hzero : THREE.y (camTargetPos (destructure p)) = 0 ->
            THREE.y (pivotTarget (destructure p) (translation body))
            = THREE.y (translation body)
              + (capsuleHalfHeight (destructure p)
                 + capsuleRadius (destructure p) / 2)).
  { intros Hz. cbn [pivotTarget THREE.y]. unfold orElse.
    destruct (Req_dec_T _ 0) as [_|Hne]; [reflexivity | contradiction]. }
  repeat split.
  - intros Hnz. cbn [pivotTarget THREE.y]. unfold orElse.
    destruct (Req_dec_T _ 0) as [He|_]; [contradiction | reflexivity].
  - exact Hzero.
  - intros Hnone. apply Hzero.
    unfold destructure. rewrite Hnone. reflexivity.
  - intros v Hv Hz. apply Hzero.
    unfold destructure. rewrite Hv. exact Hz.
Qed.

(** ** Horizontal components *)

(** The facing angle stored by a frame whose rigid body is there. *)
Lemma callback_facing
  (p : EcctrlProps) (keys : Keys) (w : World) (body : RigidBody) (delta : R) :
  characterRef_current w = Some body ->
  euler_y (modelEuler (worldOf (useFrame_callback p keys w delta)))
  = facing (euler_y (modelEuler w))
           (getMovingDirection (forward keys) (backward keys)
              (leftward keys) (rightward keys) (pivot w)).
Proof.
  intros Hb. unfold useFrame_callback. rewrite Hb.
  destruct (characterModelRef_current w); reflexivity.
Qed.

(** When run is held together with a direction, more than one key is
    pressed, so the speed is the one of the several-keys branch. *)
Lemma normalizedSpeed_running (keys : Keys) (delta : R) :
  run keys = true ->
  (1 <= nbOfDirections keys)%nat ->
  normalizedSpeed keys delta = sqrt 2 * (speed / 2) * delta.
Proof.
  unfold normalizedSpeed, nbOfKeysPressed, nbOfDirections, Object_values.
  intros -> Hdir.
  destruct (forward keys), (backward keys), (leftward keys),
    (rightward keys), (jump keys); cbn in *; solve [reflexivity | lia].
Qed.

(** C5, as amended.  In every frame whose rigid body is there, forward
    and backward both set give z the value minus the run speed (forward is
    tested first), and leftward and rightward both set give x the value
    minus the run speed (leftward is tested first); such a component is
    zero exactly when the run speed is zero. *)
Theorem opposite_flags_first_wins
  (p : EcctrlProps) (keys : Keys) (w : World) (body : RigidBody) (delta : R) :
  characterRef_current w = Some body ->
  exists body',
    characterRef_current (worldOf (useFrame_callback p keys w delta))
    = Some body'
    /\ (forward keys = true -> backward keys = true ->
        THREE.z (linvel body') = - runSpeed (destructure p) keys delta
        /\ (THREE.z (linvel body') = 0
            <-> runSpeed (destructure p) keys delta = 0))
    /\ (leftward keys = true -> rightward keys = true ->
        THREE.x (linvel body') = - runSpeed (destructure p) keys delta
        /\ (THREE.x (linvel body') = 0
            <-> runSpeed (destructure p) keys delta = 0)).
Proof.
  intros Hb. eexists. split; [apply callback_writes_impulse, Hb|].
  cbn [linvel]. unfold writtenImpulse, impulse. cbn [THREE.x THREE.z].
  split; intros -> _; (split; [reflexivity | split; intros; lra]).
Qed.

(** C6, as amended.  In every frame whose rigid body is there and in
    which leftward and rightward are both set, the x component written to
    the body is minus the run speed, negative when the run speed is
    positive: leftward wins the tie.  It is plus the run speed only when
    the run speed is zero. *)
Theorem left_right_tie_break
  (p : EcctrlProps) (keys : Keys) (w : World) (body : RigidBody) (delta : R) :
  characterRef_current w = Some body ->
  leftward keys = true ->
  rightward keys = true ->
  exists body',
    characterRef_current (worldOf (useFrame_callback p keys w delta))
    = Some body'
    /\ THREE.x (linvel body') = - runSpeed (destructure p) keys delta
    /\ (0 < runSpeed (destructure p) keys delta ->
        THREE.x (linvel body') < 0)
    /\ (THREE.x (linvel body') = runSpeed (destructure p) keys delta
        <-> runSpeed (destructure p) keys delta = 0).
Proof.
  intros Hb Hl Hr. eexists. split; [apply callback_writes_impulse, Hb|].
  cbn [linvel]. unfold writtenImpulse, impulse. cbn [THREE.x THREE.z].
  rewrite Hl. cbn [leftward].
  repeat split; intros; lra.
Qed.

(** ** Missing handles *)

(** Without a rigid body the callback returns at once and leaves
    everything as it was. *)
Lemma missing_body_skips
  (p : EcctrlProps) (keys : Keys) (w : World) (delta : R) :
  characterRef_current w = None ->
  useFrame_callback p keys w delta = Returned w.
Proof.
  intros Hb. unfold useFrame_callback. now rewrite Hb.
Qed.

(** With a rigid body but no model node the callback throws, after it has
    written the velocity; the pivot has not moved. *)
Lemma missing_model_throws
  (p : EcctrlProps) (keys : Keys) (w : World) (body : RigidBody) (delta : R) :
  characterRef_current w = Some body ->
  characterModelRef_current w = None ->
  exists w',
    useFrame_callback p keys w delta = Thrown w'
    /\ characterRef_current w'
       = Some (mkRigidBody (translation body)
                           (writtenImpulse p keys body delta))
    /\ pivot w' = pivot w.
Proof.
  intros Hb Hm. unfold useFrame_callback. rewrite Hb, Hm.
  eexists. repeat split.
Qed.

(** ** The camera pivot *)




End Frame.

(** * The statements on concrete frames *)

(** ** Evaluation of the speed on the frames used below *)

Lemma runSpeed_walking (cfg : Config) (keys : Keys) (delta : R) :
  run keys = false -> runSpeed cfg keys delta = 1.
Proof. unfold runSpeed. now intros ->. Qed.

Lemma forwardOnly_normalizedSpeed :
  normalizedSpeed forwardOnly (1 / 60) = 5 / 2.
Proof. unfold normalizedSpeed, speed. cbn. field. Qed.

Lemma forwardOnly_impulse (linvelY : R) :
  impulse (destructure noProps) forwardOnly (1 / 60) linvelY
  = THREE.mkVector3 0 linvelY (- 1).
Proof. reflexivity. Qed.

Lemma forwardLeft_impulse (linvelY : R) :
  impulse (destructure noProps) forwardLeft (1 / 60) linvelY
  = THREE.mkVector3 (- 1) linvelY (- 1).
Proof. reflexivity. Qed.

Lemma forwardLeft_planarMagnitude (linvelY : R) :
  planarMagnitude (impulse (destructure noProps) forwardLeft (1 / 60) linvelY)
  = sqrt 2.
Proof.
  rewrite forwardLeft_impulse. unfold planarMagnitude. cbn [THREE.x THREE.z].
  f_equal. ring.
Qed.

Lemma forwardRun_planarMagnitude (linvelY : R) :
  planarMagnitude (impulse (destructure noProps) forwardRun (1 / 60) linvelY)
  = sqrt 2 * (5 / 2).
Proof.
  unfold planarMagnitude, impulse, runSpeed, normalizedSpeed, speed.
  cbn [run leftward rightward forward forwardRun THREE.x THREE.z
       nbOfKeysPressed Object_values backward jump filter length Nat.eqb
       destructure noProps sprintMult orDefault p_sprintMult].
  rewrite planar_axis, Rabs_Ropp, Rabs_pos_eq.
  - field.
  - pose proof sqrt2_pos. nra.
Qed.

Lemma forwardLeftRun_planarMagnitude (linvelY : R) :
  planarMagnitude
    (impulse (destructure noProps) forwardLeftRun (1 / 60) linvelY)
  = 5.
Proof.
  unfold planarMagnitude, impulse, runSpeed, normalizedSpeed, speed.
  cbn [run leftward rightward forward forwardLeftRun THREE.x THREE.z
       nbOfKeysPressed Object_values backward jump filter length Nat.eqb
       destructure noProps sprintMult orDefault p_sprintMult].
  rewrite (planar_diagonal _ _ eq_refl), Rabs_Ropp, Rabs_pos_eq.
  - pose proof sqrt2_square as H2.
    replace (sqrt 2 * (sqrt 2 * (150 / 2) * (1 / 60) * 2))
      with ((sqrt 2 * sqrt 2) * (5 / 2)) by field.
    rewrite H2. field.
  - pose proof sqrt2_pos. nra.
Qed.

(** ** The frames on which the computed speed is dropped *)

(** What the frames used below write to the body at rest. *)
Lemma readyWorld_writes (keys : Keys) :
  characterRef_current
    (worldOf (useFrame_callback noProps keys readyWorld (1 / 60)))
  = Some (mkRigidBody origin
            (impulse (destructure noProps) keys (1 / 60) 0)).
Proof. reflexivity. Qed.

(** C2, on the frames where it fails.  With forward alone held and a frame
    time of 1/60 the callback computes the speed the statement names,
    [speed * delta = 2.5], x is 0 and the facing angle is the camera pivot
    yaw; but the velocity it writes has z = -1 and a horizontal length of 1:
    with run not held the computed speed is dropped for the constant 1.
    With run held as well, the run key counts as a pressed key, the speed
    of the several-keys branch is taken, and the horizontal length is
    [sqrt 2 * (5 / 2)], which is neither [speed * delta] nor that times the
    sprint multiplier. *)
Theorem single_direction_frame_drops_speed :
  nbOfDirections forwardOnly = 1%nat
  /\ normalizedSpeed forwardOnly (1 / 60) = speed * (1 / 60)
  /\ speed * (1 / 60) = 5 / 2
  /\ (exists w' body',
        useFrame_callback noProps forwardOnly readyWorld (1 / 60)
        = Returned w'
        /\ characterRef_current w' = Some body'
        /\ euler_y (modelEuler w') = JNumber (rotation_y (pivot readyWorld))
        /\ THREE.x (linvel body') = 0
        /\ THREE.z (linvel body') = - 1
        /\ THREE.z (linvel body') <> - (speed * (1 / 60))
        /\ planarMagnitude (linvel body') = 1
        /\ planarMagnitude (linvel body') <> speed * (1 / 60))
  /\ (exists w' body',
        nbOfDirections forwardRun = 1%nat
        /\ useFrame_callback noProps forwardRun readyWorld (1 / 60)
           = Returned w'
        /\ characterRef_current w' = Some body'
        /\ planarMagnitude (linvel body') = sqrt 2 * (5 / 2)
        /\ planarMagnitude (linvel body') <> speed * (1 / 60)
        /\ planarMagnitude (linvel body')
           <> speed * (1 / 60) * sprintMult (destructure noProps)).
Proof.
  pose proof sqrt2_bounds as Hs.
  split; [reflexivity|].
  split; [reflexivity|].
  split; [unfold speed; lra|].
  split.
  - destruct (callback_returns noProps forwardOnly readyWorld restBody
                yawModel (1 / 60) eq_refl eq_refl)
      as (w' & Hret & Hb & _ & _ & _ & Hface).
    exists w'. eexists. split; [exact Hret|]. split; [exact Hb|].
    split; [exact Hface|]. cbn [linvel]. unfold writtenImpulse.
    rewrite forwardOnly_impulse. cbn [THREE.x THREE.z].
    assert (Hm : planarMagnitude
                   (THREE.mkVector3 0 (THREE.y (linvel restBody)) (- 1)) = 1).
    { unfold planarMagnitude. cbn [THREE.x THREE.z].
      rewrite planar_axis. unfold Rabs. destruct (Rcase_abs (- 1)); lra. }
    rewrite Hm. unfold speed. repeat split; lra.
  - destruct (callback_returns noProps forwardRun readyWorld restBody
                yawModel (1 / 60) eq_refl eq_refl)
      as (w' & Hret & Hb & _).
    exists w'. eexists. split; [reflexivity|].
    split; [exact Hret|]. split; [exact Hb|]. cbn [linvel].
    unfold writtenImpulse. rewrite forwardRun_planarMagnitude.
    unfold speed. cbn [destructure sprintMult orDefault noProps p_sprintMult].
    repeat split; lra.
Qed.

(** C3, on the frames where it fails.  With forward and leftward held and
    a frame time of 1/60 the callback computes the reduced speed
    [sqrt 2 * (speed / 2) * delta] (about 1.7678), and a velocity with that
    speed on both axes would have the horizontal length [speed * delta];
    but it writes x = z = -1, of horizontal length [sqrt 2], which is not
    [speed * delta] and not the length 1 written for forward alone: the
    diagonal is faster than the straight line.  With run held as well the
    reduced speed is used, and the length is
    [speed * delta * sprintMult]. *)
Theorem diagonal_frame_not_normalized :
  twoOrthogonal forwardLeft = true
  /\ normalizedSpeed forwardLeft (1 / 60) = sqrt 2 * (speed / 2) * (1 / 60)
  /\ planarMagnitude
       (THREE.mkVector3 (- normalizedSpeed forwardLeft (1 / 60)) 0
                        (- normalizedSpeed forwardLeft (1 / 60)))
     = speed * (1 / 60)
  /\ (exists w' body',
        useFrame_callback noProps forwardLeft readyWorld (1 / 60)
        = Returned w'
        /\ characterRef_current w' = Some body'
        /\ THREE.x (linvel body') = - 1
        /\ THREE.z (linvel body') = - 1
        /\ planarMagnitude (linvel body') = sqrt 2
        /\ planarMagnitude (linvel body') <> speed * (1 / 60)
        /\ planarMagnitude (writtenImpulse noProps forwardOnly restBody (1 / 60))
           = 1
        /\ planarMagnitude (linvel body')
           <> planarMagnitude
                (writtenImpulse noProps forwardOnly restBody (1 / 60)))
  /\ (exists w' body',
        twoOrthogonal forwardLeftRun = true
        /\ useFrame_callback noProps forwardLeftRun readyWorld (1 / 60)
           = Returned w'
        /\ characterRef_current w' = Some body'
        /\ planarMagnitude (linvel body')
           = speed * (1 / 60) * sprintMult (destructure noProps)).
Proof.
  pose proof sqrt2_bounds as Hs. pose proof sqrt2_square as Hsq.
  assert (Hn : normalizedSpeed forwardLeft (1 / 60)
               = sqrt 2 * (speed / 2) * (1 / 60)) by reflexivity.
  split; [reflexivity|]. split; [exact Hn|]. split.
  { rewrite Hn. unfold planarMagnitude, speed. cbn [THREE.x THREE.z].
    rewrite (planar_diagonal _ _ eq_refl), Rabs_Ropp, Rabs_pos_eq by nra.
    replace (sqrt 2 * (sqrt 2 * (150 / 2) * (1 / 60)))
      with ((sqrt 2 * sqrt 2) * ((150 / 2) * (1 / 60))) by ring.
    rewrite Hsq. field. }
  split.
  - destruct (callback_returns noProps forwardLeft readyWorld restBody
                yawModel (1 / 60) eq_refl eq_refl)
      as (w' & Hret & Hb & _).
    exists w'. eexists. split; [exact Hret|]. split; [exact Hb|].
    cbn [linvel]. unfold writtenImpulse.
    rewrite forwardLeft_planarMagnitude, forwardLeft_impulse,
      forwardOnly_impulse.
    cbn [THREE.x THREE.z].
    assert (Hm : planarMagnitude
                   (THREE.mkVector3 0 (THREE.y (linvel restBody)) (- 1)) = 1).
    { unfold planarMagnitude. cbn [THREE.x THREE.z].
      rewrite planar_axis. unfold Rabs. destruct (Rcase_abs (- 1)); lra. }
    rewrite Hm. unfold speed. repeat split; lra.
  - destruct (callback_returns noProps forwardLeftRun readyWorld restBody
                yawModel (1 / 60) eq_refl eq_refl)
      as (w' & Hret & Hb & _).
    exists w'. eexists. split; [reflexivity|].
    split; [exact Hret|]. split; [exact Hb|]. cbn [linvel].
    unfold writtenImpulse. rewrite forwardLeftRun_planarMagnitude.
    unfold speed. cbn [destructure sprintMult orDefault noProps p_sprintMult].
    field.
Qed.

(** ** Counterexamples to the statements as first worded *)


(** C5 as first worded fails.  With forward and backward both set the
    callback writes z = -1, and with leftward and rightward both set it
    writes x = -1: neither component is zero. *)
Lemma opposite_flags_counterexample :
  (exists body',
     forward forwardBackward = true /\ backward forwardBackward = true
     /\ characterRef_current
          (worldOf
             (useFrame_callback noProps forwardBackward readyWorld (1 / 60)))
        = Some body'
     /\ THREE.z (linvel body') = - 1
     /\ THREE.z (linvel body') <> 0)
  /\ (exists body',
        leftward leftRight = true /\ rightward leftRight = true
        /\ characterRef_current
             (worldOf (useFrame_callback noProps leftRight readyWorld (1 / 60)))
           = Some body'
        /\ THREE.x (linvel body') = - 1
        /\ THREE.x (linvel body') <> 0).
Proof.
  split; eexists; (split; [reflexivity|]); (split; [reflexivity|]);
    (split; [apply readyWorld_writes|]); cbn [linvel];
    (split; [reflexivity|]).
  - change (- 1 <> 0). lra.
  - change (- 1 <> 0). lra.
Qed.

(** C6 as first worded fails.  With leftward and rightward both set the
    run speed of the frame is 1 and the callback writes x = -1, which is not
    plus the run speed. *)
Lemma left_right_tie_counterexample :
  exists body',
    leftward leftRight = true /\ rightward leftRight = true
    /\ characterRef_current
         (worldOf (useFrame_callback noProps leftRight readyWorld (1 / 60)))
       = Some body'
    /\ runSpeed (destructure noProps) leftRight (1 / 60) = 1
    /\ THREE.x (linvel body') = - 1
    /\ THREE.x (linvel body')
       <> runSpeed (destructure noProps) leftRight (1 / 60).
Proof.
  eexists. split; [reflexivity|]. split; [reflexivity|].
  split; [apply readyWorld_writes|]. cbn [linvel].
  split; [reflexivity|]. split; [reflexivity|].
  change (- 1 <> 1). lra.
Qed.

(** ** The frame without a model node *)

(** C7, on the frame where it fails.  Without a rigid body the callback
    returns and leaves the world as it was.  With a rigid body and no model
    node it throws, and by then it has written the velocity: the body that
    was at rest has z velocity -1. *)
Theorem missing_model_frame_faults :
  useFrame_callback noProps forwardOnly bodilessWorld (1 / 60)
  = Returned bodilessWorld
  /\ exists w',
       useFrame_callback noProps forwardOnly modellessWorld (1 / 60)
       = Thrown w'
       /\ characterRef_current w'
          = Some (mkRigidBody origin (THREE.mkVector3 0 0 (- 1)))
       /\ characterRef_current w' <> characterRef_current modellessWorld.
Proof.
  split; [reflexivity|].
  eexists. split; [reflexivity|]. split; [reflexivity|].
  cbn. intros Heq. injection Heq as Hz.
  rewrite runSpeed_walking in Hz by reflexivity. lra.
Qed.

(** ** The theorems applied to concrete frames *)

(** C4 on a frame with jump and run both held: the default props give
    [1.2 * 4]. *)
Lemma impulse_vertical_witness :
  characterRef_current readyWorld = Some restBody
  /\ exists body',
       characterRef_current
         (worldOf (useFrame_callback noProps jumpRun readyWorld (1 / 60)))
       = Some body'
       /\ THREE.y (linvel body') = 12 / 10 * 4.
Proof.
  split; [reflexivity|].
  exact (impulse_vertical noProps jumpRun readyWorld restBody (1 / 60)
           eq_refl).
Defined.

(** C9 on the frame with forward and leftward held, run not held. *)
Lemma walk_components_unit_witness :
  characterRef_current readyWorld = Some restBody
  /\ run forwardLeft = false
  /\ (1 <= nbOfDirections forwardLeft)%nat
  /\ exists body',
       characterRef_current
         (worldOf (useFrame_callback noProps forwardLeft readyWorld (1 / 60)))
       = Some body'
       /\ (THREE.x (linvel body') = 0 \/ Rabs (THREE.x (linvel body')) = 1)
       /\ (THREE.z (linvel body') = 0 \/ Rabs (THREE.z (linvel body')) = 1).
Proof.
  split; [reflexivity|]. split; [reflexivity|].
  split; [cbn; lia|].
  destruct (walk_components_unit noProps forwardLeft readyWorld restBody
              (1 / 60) eq_refl eq_refl)
    as (body' & Hb & Hx & Hz & _); [cbn; lia|].
  exists body'. repeat split; assumption.
Defined.

(** C10 with no prop given: [camTargetPos.y] is the default 0 and the
    target is raised by [0.35 + 0.3 / 2]. *)
Lemma pivot_target_vertical_witness :
  characterRef_current readyWorld = Some restBody
  /\ characterModelRef_current readyWorld = Some yawModel
  /\ exists w',
       useFrame_callback noProps noKeys readyWorld (1 / 60) = Returned w'
       /\ THREE.y (pivotPosition w') = 0 + (35 / 100 + 3 / 10 / 2).
Proof.
  split; [reflexivity|]. split; [reflexivity|].
  destruct (pivot_target_vertical noProps noKeys readyWorld restBody yawModel
              (1 / 60) eq_refl eq_refl)
    as (w' & Hret & _ & _ & Hnone & _).
  exists w'. split; [exact Hret|]. exact (Hnone eq_refl).
Defined.

(** C5 as amended, on the frame with forward and backward held. *)
Lemma opposite_flags_first_wins_witness :
  characterRef_current readyWorld = Some restBody
  /\ exists body',
       characterRef_current
         (worldOf
            (useFrame_callback noProps forwardBackward readyWorld (1 / 60)))
       = Some body'
       /\ THREE.z (linvel body')
          = - runSpeed (destructure noProps) forwardBackward (1 / 60).
Proof.
  split; [reflexivity|].
  destruct (opposite_flags_first_wins noProps forwardBackward readyWorld
              restBody (1 / 60) eq_refl)
    as (body' & Hb & Hz & _).
  exists body'. split; [exact Hb|]. exact (proj1 (Hz eq_refl eq_refl)).
Defined.

(** C6 as amended, on the frame with leftward and rightward held. *)
Lemma left_right_tie_break_witness :
  characterRef_current readyWorld = Some restBody
  /\ leftward leftRight = true
  /\ rightward leftRight = true
  /\ exists body',
       characterRef_current
         (worldOf (useFrame_callback noProps leftRight readyWorld (1 / 60)))
       = Some body'
       /\ THREE.x (linvel body')
          = - runSpeed (destructure noProps) leftRight (1 / 60).
Proof.
  split; [reflexivity|]. split; [reflexivity|]. split; [reflexivity|].
  destruct (left_right_tie_break noProps leftRight readyWorld restBody
              (1 / 60) eq_refl eq_refl eq_refl)
    as (body' & Hb & Hx & _).
  exists body'. split; [exact Hb|]. exact Hx.
Defined.


(** * Further properties of the frame callback *)

Section Frames.

Context `{H : Host}.

(** [frames] over a concatenation. *)
Lemma frames_app
  (p : EcctrlProps) (delta : R) (first rest : list Keys) (w : World) :
  frames p delta (first ++ rest) w
  = match frames p delta first w with
    | Returned w' => frames p delta rest w'
    | Thrown w' => Thrown w'
    end.
Proof.
  revert w. induction first as [|keys first IH]; intros w; [reflexivity|].
  cbn [app frames].
  destruct (useFrame_callback p keys w delta); [apply IH | reflexivity].
Qed.

(** What one call leaves untouched, whether it returns or throws. *)
Lemma callback_keeps
  (p : EcctrlProps) (keys : Keys) (w : World) (delta : R) :
  option_map translation
    (characterRef_current (worldOf (useFrame_callback p keys w delta)))
  = option_map translation (characterRef_current w)
  /\ rotation_y (pivot (worldOf (useFrame_callback p keys w delta)))
     = rotation_y (pivot w)
  /\ (characterModelRef_current (worldOf (useFrame_callback p keys w delta))
      = None
      <-> characterModelRef_current w = None)
  /\ euler_x (modelEuler (worldOf (useFrame_callback p keys w delta)))
     = euler_x (modelEuler w)
  /\ euler_z (modelEuler (worldOf (useFrame_callback p keys w delta)))
     = euler_z (modelEuler w).
Proof.
  unfold useFrame_callback.
  destruct (characterRef_current w) as [body|] eqn:Hb.
  - destruct (characterModelRef_current w) as [model|] eqn:Hm; cbn;
      repeat split; congruence.
  - cbn. rewrite Hb. repeat split; auto.
Qed.

(** X1.  However many frames run, and whether the run ends by returning or
    by a throw, the callback never moves the rigid body (its translation is
    as before), never turns the camera pivot (its yaw is as before), never
    attaches or detaches the model node, and never touches the x and z
    angles of the model's Euler triple. *)
Theorem frames_keep_body_and_yaw
  (p : EcctrlProps) (delta : R) (inputs : list Keys) (w : World) :
  option_map translation
    (characterRef_current (worldOf (frames p delta inputs w)))
  = option_map translation (characterRef_current w)
  /\ rotation_y (pivot (worldOf (frames p delta inputs w)))
     = rotation_y (pivot w)
  /\ (characterModelRef_current (worldOf (frames p delta inputs w)) = None
      <-> characterModelRef_current w = None)
  /\ euler_x (modelEuler (worldOf (frames p delta inputs w)))
     = euler_x (modelEuler w)
  /\ euler_z (modelEuler (worldOf (frames p delta inputs w)))
     = euler_z (modelEuler w).
Proof.
  revert w. induction inputs as [|keys rest IH]; intros w.
  - cbn. repeat split; auto.
  - cbn [frames].
    pose proof (callback_keeps p keys w delta) as (Kt & Ky & Km & Kx & Kz).
    destruct (useFrame_callback p keys w delta) as [w1|w1]; cbn [worldOf] in *.
    + destruct (IH w1) as (It & Iy & Im & Ix & Iz).
      repeat split; try congruence; intros Hn.
      * apply Km, Im, Hn.
      * apply Im, Km, Hn.
    + repeat split; try assumption; apply Km.
Qed.

(** The direction table reads only the yaw of the pivot. *)
Lemma getMovingDirection_yaw (f b l r : bool) (pv pv' : Object3D) :
  rotation_y pv = rotation_y pv' ->
  getMovingDirection f b l r pv = getMovingDirection f b l r pv'.
Proof.
  intros Hy. unfold getMovingDirection. now rewrite Hy.
Qed.

(** With a direction held the table gives a number. *)
Lemma getMovingDirection_number (keys : Keys) (pv : Object3D) :
  hasDirection keys = true ->
  exists t,
    getMovingDirection (forward keys) (backward keys) (leftward keys)
      (rightward keys) pv = JNumber t.
Proof.
  unfold hasDirection, getMovingDirection.
  destruct (forward keys), (backward keys), (leftward keys),
    (rightward keys); cbn; intros Hd; try discriminate Hd; eexists;
    reflexivity.
Qed.

(** With no direction held the table gives [null]. *)
Lemma getMovingDirection_idle (keys : Keys) (pv : Object3D) :
  hasDirection keys = false ->
  getMovingDirection (forward keys) (backward keys) (leftward keys)
    (rightward keys) pv = JNull.
Proof.
  unfold hasDirection, getMovingDirection.
  destruct (forward keys), (backward keys), (leftward keys),
    (rightward keys); cbn; intros Hd; try discriminate Hd; reflexivity.
Qed.

(** One call keeps a numeric facing numeric. *)
Lemma callback_facing_number
  (p : EcctrlProps) (keys : Keys) (w : World) (delta t0 : R) :
  euler_y (modelEuler w) = JNumber t0 ->
  exists t,
    euler_y (modelEuler (worldOf (useFrame_callback p keys w delta)))
    = JNumber t.
Proof.
  intros H0.
  destruct (characterRef_current w) as [body|] eqn:Hb.
  - rewrite (callback_facing p keys w body delta Hb), H0.
    destruct (hasDirection keys) eqn:Hd.
    + destruct (getMovingDirection_number keys (pivot w) Hd) as (t & ->).
      exists t. reflexivity.
    + rewrite (getMovingDirection_idle keys (pivot w) Hd).
      exists t0. reflexivity.
  - rewrite missing_body_skips by exact Hb. exists t0. exact H0.
Qed.

(** X2.  The facing angle [modelEuler.y], once a number, is a number after
    any run of frames: no frame stores [null] or [undefined] in it, whether
    handles are missing or not. *)
Theorem frames_facing_stays_number
  (p : EcctrlProps) (delta : R) (inputs : list Keys) (w : World) (t0 : R) :
  euler_y (modelEuler w) = JNumber t0 ->
  exists t,
    euler_y (modelEuler (worldOf (frames p delta inputs w))) = JNumber t.
Proof.
  revert w t0. induction inputs as [|keys rest IH]; intros w t0 H0.
  - exists t0. exact H0.
  - cbn [frames].
    destruct (callback_facing_number p keys w delta t0 H0) as (t1 & H1).
    destruct (useFrame_callback p keys w delta) as [w1|w1]; cbn [worldOf] in *.
    + exact (IH w1 t1 H1).
    + exists t1. exact H1.
Qed.

(** With both handles there a run of frames returns, with both handles
    still there and the pivot yaw as before. *)
Lemma frames_return
  (p : EcctrlProps) (delta : R) (inputs : list Keys) :
  forall (w : World) (body : RigidBody) (model : Group),
    characterRef_current w = Some body ->
    characterModelRef_current w = Some model ->
    exists w' body' model',
      frames p delta inputs w = Returned w'
      /\ characterRef_current w' = Some body'
      /\ characterModelRef_current w' = Some model'
      /\ rotation_y (pivot w') = rotation_y (pivot w).
Proof.
  induction inputs as [|keys rest IH]; intros w body model Hb Hm.
  - exists w, body, model. repeat split; assumption.
  - destruct (callback_returns p keys w body model delta Hb Hm)
      as (w1 & Hret & Hb1 & (model1 & Hm1) & _).
    pose proof (callback_keeps p keys w delta) as (_ & Ky & _).
    rewrite Hret in Ky. cbn [worldOf] in Ky.
    destruct (IH w1 _ model1 Hb1 Hm1) as (w' & body' & model' & Hfr & Hb' & Hm' & Hy).
    exists w', body', model'. cbn [frames]. rewrite Hret.
    repeat split; try assumption. congruence.
Qed.

(** Frames without a direction held leave the facing angle as it was. *)
Lemma frames_idle_hold
  (p : EcctrlProps) (delta : R) (idle : list Keys) :
  Forall (fun keys => hasDirection keys = false) idle ->
  forall w : World,
    euler_y (modelEuler (worldOf (frames p delta idle w)))
    = euler_y (modelEuler w).
Proof.
  induction 1 as [|keys idle Hk _ IH]; intros w; [reflexivity|].
  cbn [frames].
  assert (H1 : euler_y (modelEuler (worldOf (useFrame_callback p keys w delta)))
               = euler_y (modelEuler w)).
  { destruct (characterRef_current w) as [body|] eqn:Hb.
    - rewrite (callback_facing p keys w body delta Hb).
      now rewrite (getMovingDirection_idle keys (pivot w) Hk).
    - now rewrite missing_body_skips by exact Hb. }
  destruct (useFrame_callback p keys w delta) as [w1|w1]; cbn [worldOf] in *.
  - now rewrite IH.
  - exact H1.
Qed.

(** X3.  With both handles there, the facing angle after a run of frames
    is the one the direction table gives for the last frame in which a
    direction was held, at the pivot yaw; the frames before it and the
    facing the run started from leave no trace, and the frames after it
    without a direction hold it. *)
Theorem frames_facing_last_direction
  (p : EcctrlProps) (delta : R) (before idle : list Keys) (keys : Keys)
  (w : World) (body : RigidBody) (model : Group) :
  characterRef_current w = Some body ->
  characterModelRef_current w = Some model ->
  hasDirection keys = true ->
  Forall (fun k => hasDirection k = false) idle ->
  euler_y (modelEuler (worldOf (frames p delta (before ++ keys :: idle) w)))
  = getMovingDirection (forward keys) (backward keys) (leftward keys)
      (rightward keys) (pivot w).
Proof.
  intros Hb Hm Hd Hidle.
  rewrite frames_app.
  destruct (frames_return p delta before w body model Hb Hm)
    as (w1 & body1 & model1 & Hfr & Hb1 & Hm1 & Hy1).
  rewrite Hfr. cbn [frames].
  pose proof (callback_facing p keys w1 body1 delta Hb1) as Hf.
  destruct (callback_returns p keys w1 body1 model1 delta Hb1 Hm1)
    as (w2 & Hret & _).
  rewrite Hret in Hf |- *. cbn [worldOf] in Hf.
  rewrite (frames_idle_hold p delta idle Hidle w2), Hf.
  rewrite (getMovingDirection_yaw _ _ _ _ (pivot w1) (pivot w) Hy1).
  destruct (getMovingDirection_number keys (pivot w) Hd) as (t & ->).
  reflexivity.
Qed.

(** ** The values the horizontal velocity can take *)

(** X4.  In every frame whose rigid body is there, each of the x and z
    components written to the body is one of five values: 0, 1, -1, or plus
    or minus [sqrt 2 * (speed / 2) * delta * sprintMult].  The value
    [speed * delta] of the one-key branch of the speed never reaches the
    body: when a single key is pressed it is either run alone, and nothing
    moves, or run is not set, and the speed is 1. *)
Theorem horizontal_velocity_values
  (p : EcctrlProps) (keys : Keys) (w : World) (body : RigidBody) (delta : R) :
  characterRef_current w = Some body ->
  exists body',
    characterRef_current (worldOf (useFrame_callback p keys w delta))
    = Some body'
    /\ (forall c,
          c = THREE.x (linvel body') \/ c = THREE.z (linvel body') ->
          c = 0 \/ c = 1 \/ c = - 1
          \/ c = sqrt 2 * (speed / 2) * delta * sprintMult (destructure p)
          \/ c = - (sqrt 2 * (speed / 2) * delta * sprintMult (destructure p)))
    /\ (nbOfKeysPressed keys = 1%nat ->
        forall c,
          c = THREE.x (linvel body') \/ c = THREE.z (linvel body') ->
          c = 0 \/ c = 1 \/ c = - 1).
Proof.
  intros Hb. eexists. split; [apply callback_writes_impulse, Hb|].
  cbn [linvel]. unfold writtenImpulse, impulse. cbn [THREE.x THREE.z].
  destruct (run keys) eqn:Hr.
  - destruct (hasDirection keys) eqn:Hd.
    + assert (Hs : runSpeed (destructure p) keys delta
                   = sqrt 2 * (speed / 2) * delta * sprintMult (destructure p)).
      { unfold runSpeed. rewrite Hr, normalizedSpeed_running; auto.
        unfold hasDirection in Hd. unfold nbOfDirections.
        destruct (forward keys), (backward keys), (leftward keys),
          (rightward keys); cbn in *; solve [lia | discriminate]. }
      rewrite Hs. split.
      * intros c [-> | ->];
          destruct (forward keys), (backward keys), (leftward keys),
            (rightward keys); auto 6.
      * unfold nbOfKeysPressed, Object_values, hasDirection in *.
        rewrite Hr.
        destruct (forward keys), (backward keys), (leftward keys),
          (rightward keys), (jump keys); cbn in *;
          solve [discriminate | intros Hn; discriminate Hn].
    + unfold hasDirection in Hd.
      destruct (forward keys), (backward keys), (leftward keys),
        (rightward keys); cbn in Hd; try discriminate Hd.
      split; [|intros _]; intros c [-> | ->]; auto.
  - rewrite (runSpeed_walking _ _ _ Hr).
    split; [|intros _]; intros c [-> | ->];
      destruct (forward keys), (backward keys), (leftward keys),
        (rightward keys); auto 6.
Qed.

(** X5.  While run and a direction are held, the horizontal velocity
    written is proportional to the frame time: a frame [c] times as long
    writes [c] times the x and z components.  With frame time and sprint
    multiplier not negative and [75 * sqrt 2 * sprintMult * delta < 1], both
    components are below the walking speed 1 in magnitude. *)
Theorem sprint_velocity_scales_with_frame_time
  (p : EcctrlProps) (keys : Keys) (delta linvelY : R) :
  run keys = true ->
  hasDirection keys = true ->
  (forall c,
     THREE.x (impulse (destructure p) keys (c * delta) linvelY)
     = c * THREE.x (impulse (destructure p) keys delta linvelY)
     /\ THREE.z (impulse (destructure p) keys (c * delta) linvelY)
        = c * THREE.z (impulse (destructure p) keys delta linvelY))
  /\ (0 <= delta -> 0 <= sprintMult (destructure p) ->
      75 * sqrt 2 * sprintMult (destructure p) * delta < 1 ->
      Rabs (THREE.x (impulse (destructure p) keys delta linvelY)) < 1
      /\ Rabs (THREE.z (impulse (destructure p) keys delta linvelY)) < 1).
Proof.
  intros Hr Hd.
  assert (Hdir : (1 <= nbOfDirections keys)%nat).
  { unfold hasDirection in Hd. unfold nbOfDirections.
    destruct (forward keys), (backward keys), (leftward keys),
      (rightward keys); cbn in *; solve [lia | discriminate]. }
  assert (Hs : forall d, runSpeed (destructure p) keys d
                         = sqrt 2 * (speed / 2) * d * sprintMult (destructure p)).
  { intros d. unfold runSpeed. rewrite Hr, normalizedSpeed_running; auto. }
  unfold impulse. cbn [THREE.x THREE.z].
  split; [intros c|]; rewrite !Hs; unfold speed.
  - destruct (forward keys), (backward keys), (leftward keys),
      (rightward keys); cbv iota; split; ring.
  - intros H0 Hm Hlt.
    set (s := sqrt 2 * (150 / 2) * delta * sprintMult (destructure p)).
    assert (Hs0 : 0 <= s).
    { unfold s. pose proof sqrt2_pos.
      apply Rmult_le_pos; [|exact Hm]. apply Rmult_le_pos; [|exact H0]. nra. }
    assert (Hs1 : s < 1) by (unfold s; nra).
    assert (Ha : Rabs s < 1) by (rewrite Rabs_pos_eq; assumption).
    assert (Hn : Rabs (- s) < 1) by (rewrite Rabs_Ropp; exact Ha).
    assert (Hz : Rabs 0 < 1) by (rewrite Rabs_R0; lra).
    destruct (forward keys), (backward keys), (leftward keys),
      (rightward keys); split; assumption.
Qed.

(** ** Velocity against facing *)

Lemma magnitude_on_x (s a : R) :
  Rabs a = s -> sqrt (a * a + 0 * 0) = s.
Proof. intros <-. apply planar_axis'. Qed.

Lemma magnitude_on_z (s a : R) :
  Rabs a = s -> sqrt (0 * 0 + a * a) = s.
Proof. intros <-. apply planar_axis. Qed.

Lemma magnitude_diagonal (s a b : R) :
  Rabs a = s -> Rabs b = s -> sqrt (a * a + b * b) = sqrt 2 * s.
Proof.
  intros Ha Hb. rewrite (planar_diagonal a b) by congruence. now rewrite Hb.
Qed.

(** The facing offsets of the table, with the yaw taken off again. *)
Ltac offsets :=
  repeat match goal with
  | |- context [?y + PI / 4 + PI - ?y] =>
    replace (y + PI / 4 + PI - y) with (PI / 4 + PI) by ring
  | |- context [?y - PI / 4 + PI - ?y] =>
    replace (y - PI / 4 + PI - y) with (- (PI / 4) + PI) by ring
  | |- context [?y + PI / 4 - ?y] =>
    replace (y + PI / 4 - y) with (PI / 4) by ring
  | |- context [?y - PI / 4 - ?y] =>
    replace (y - PI / 4 - y) with (- (PI / 4)) by ring
  | |- context [?y + PI / 2 - ?y] =>
    replace (y + PI / 2 - y) with (PI / 2) by ring
  | |- context [?y - PI / 2 - ?y] =>
    replace (y - PI / 2 - y) with (- (PI / 2)) by ring
  | |- context [?y + PI - ?y] =>
    replace (y + PI - y) with PI by ring
  | |- context [?y - ?y] =>
    replace (y - y) with 0 by ring
  end;
  rewrite ?neg_sin, ?neg_cos, ?sin_neg, ?cos_neg, ?sin_PI4, ?cos_PI4,
    ?sin_PI2, ?cos_PI2, ?sin_PI, ?cos_PI, ?sin_0, ?cos_0.

(** X6.  In every frame whose rigid body is there, with a direction held,
    a run speed that is not negative, and not forward and backward held
    without a lateral key, the horizontal velocity written points opposite
    to the facing offset measured in world axes: with [t] the facing angle
    stored by the frame and [M] the horizontal length of the velocity,
    [x = - M * sin (t - yaw)] and [z = - M * cos (t - yaw)].  The velocity is
    laid along the world axes, whatever the pivot yaw. *)
Theorem velocity_opposes_facing_offset
  (p : EcctrlProps) (keys : Keys) (w : World) (body : RigidBody) (delta : R) :
  characterRef_current w = Some body ->
  hasDirection keys = true ->
  forwardBackwardAlone keys = false ->
  0 <= runSpeed (destructure p) keys delta ->
  exists body' t,
    characterRef_current (worldOf (useFrame_callback p keys w delta))
    = Some body'
    /\ euler_y (modelEuler (worldOf (useFrame_callback p keys w delta)))
       = JNumber t
    /\ THREE.x (linvel body')
       = - planarMagnitude (linvel body') * sin (t - rotation_y (pivot w))
    /\ THREE.z (linvel body')
       = - planarMagnitude (linvel body') * cos (t - rotation_y (pivot w)).
Proof.
  intros Hb Hd Hfb Hs.
  rewrite (callback_facing p keys w body delta Hb).
  rewrite (callback_writes_impulse p keys w body delta Hb).
  exists (mkRigidBody (translation body) (writtenImpulse p keys body delta)).
  cbn [linvel].
  unfold writtenImpulse, planarMagnitude, impulse.
  cbn [THREE.x THREE.z].
  set (s := runSpeed (destructure p) keys delta) in *. clearbody s.
  assert (Hp : Rabs s = s) by (apply Rabs_pos_eq; exact Hs).
  assert (Hn : Rabs (- s) = s) by (rewrite Rabs_Ropp; exact Hp).
  pose proof sqrt2_pos as H2.
  unfold hasDirection in Hd. unfold forwardBackwardAlone in Hfb.
  unfold getMovingDirection.
  destruct (forward keys), (backward keys), (leftward keys),
    (rightward keys); cbn in Hd, Hfb; try discriminate;
    cbn [negb andb facing]; eexists; (split; [reflexivity|]);
    cbn [linvel THREE.x THREE.z]; (split; [reflexivity|]);
    first [ rewrite (magnitude_diagonal s) by assumption
          | rewrite (magnitude_on_x s) by assumption
          | rewrite (magnitude_on_z s) by assumption ];
    offsets; split; field; lra.
Qed.

(** X7.  The one combination left out above: with forward and backward held
    and no lateral key, the frame stores the facing of backward, the pivot
    yaw plus [PI], while it writes the velocity of forward, x = 0 and z
    minus the run speed; with a positive run speed the character moves
    forward facing backward. *)
Theorem forward_backward_faces_back_moves_forward
  (p : EcctrlProps) (keys : Keys) (w : World) (body : RigidBody) (delta : R) :
  characterRef_current w = Some body ->
  forwardBackwardAlone keys = true ->
  exists body',
    characterRef_current (worldOf (useFrame_callback p keys w delta))
    = Some body'
    /\ euler_y (modelEuler (worldOf (useFrame_callback p keys w delta)))
       = JNumber (rotation_y (pivot w) + PI)
    /\ THREE.x (linvel body') = 0
    /\ THREE.z (linvel body') = - runSpeed (destructure p) keys delta
    /\ (0 < runSpeed (destructure p) keys delta ->
        THREE.z (linvel body')
        = planarMagnitude (linvel body')
          * cos (rotation_y (pivot w) + PI - rotation_y (pivot w))
        /\ THREE.z (linvel body')
           <> - planarMagnitude (linvel body')
                * cos (rotation_y (pivot w) + PI - rotation_y (pivot w))).
Proof.
  intros Hb Hfb.
  rewrite (callback_facing p keys w body delta Hb).
  eexists. split; [apply callback_writes_impulse, Hb|].
  cbn [linvel]. unfold writtenImpulse, planarMagnitude, impulse.
  cbn [THREE.x THREE.z].
  set (s := runSpeed (destructure p) keys delta) in *. clearbody s.
  unfold forwardBackwardAlone in Hfb. unfold getMovingDirection.
  destruct (forward keys), (backward keys), (leftward keys),
    (rightward keys); cbn in Hfb; try discriminate.
  cbn [negb andb facing].
  split; [reflexivity|]. split; [reflexivity|]. split; [reflexivity|].
  intros Hs.
  rewrite (magnitude_on_z s) by (rewrite Rabs_Ropp; apply Rabs_pos_eq; lra).
  offsets. split; lra.
Qed.

(** ** More on the camera pivot *)

(** Two interpolation steps toward the same point make one. *)
Lemma lerp_lerp (p t : THREE.Vector3) (a b : R) :
  THREE.lerp (THREE.lerp p t a) t b
  = THREE.lerp p t (1 - (1 - a) * (1 - b)).
Proof.
  unfold THREE.lerp. cbn [THREE.x THREE.y THREE.z]. f_equal; ring.
Qed.

Lemma followFactor_sum (cfg : Config) (d1 d2 : R) :
  1 - (1 - followFactor cfg d1) * (1 - followFactor cfg d2)
  = followFactor cfg (d1 + d2).
Proof.
  unfold followFactor.
  replace (- camFollowMult cfg * (d1 + d2))
    with (- camFollowMult cfg * d1 + - camFollowMult cfg * d2) by ring.
  rewrite exp_plus. ring.
Qed.

(** X8.  The pivot follow does not depend on how time is cut into frames:
    with both handles there, a frame of [d1] followed by a frame of [d2]
    leaves the pivot where a single frame of [d1 + d2] leaves it, whatever
    the keys of the three frames. *)
Theorem pivot_follow_frame_split
  (p : EcctrlProps) (keys1 keys2 keys : Keys) (w : World)
  (body : RigidBody) (model : Group) (d1 d2 : R) :
  characterRef_current w = Some body ->
  characterModelRef_current w = Some model ->
  exists w1 w2 w3,
    useFrame_callback p keys1 w d1 = Returned w1
    /\ useFrame_callback p keys2 w1 d2 = Returned w2
    /\ useFrame_callback p keys w (d1 + d2) = Returned w3
    /\ position (pivot w2) = position (pivot w3).
Proof.
  intros Hb Hm.
  destruct (callback_returns p keys1 w body model d1 Hb Hm)
    as (w1 & Hr1 & Hb1 & (model1 & Hm1) & _ & Hp1 & _).
  destruct (callback_returns p keys2 w1 _ model1 d2 Hb1 Hm1)
    as (w2 & Hr2 & _ & _ & _ & Hp2 & _).
  destruct (callback_returns p keys w body model (d1 + d2) Hb Hm)
    as (w3 & Hr3 & _ & _ & _ & Hp3 & _).
  exists w1, w2, w3. repeat split; try assumption.
  cbn [translation] in Hp2.
  rewrite Hp2, Hp1, Hp3, lerp_lerp, followFactor_sum. reflexivity.
Qed.

(** A value moved part of the way toward another stays between the two. *)
Lemma between_step (a b f : R) :
  0 <= f <= 1 -> Rmin a b <= a + (b - a) * f <= Rmax a b.
Proof.
  intros [H0 H1]. unfold Rmin, Rmax.
  destruct (Rle_dec a b); split; nra.
Qed.

(** X9.  With [camFollowMult] and the frame time not negative the pivot
    never overshoots: after a frame that runs to its end each coordinate of
    the pivot lies between its old value and the target's, and the pivot is
    no farther from the target than before. *)
Theorem pivot_follow_no_overshoot
  (p : EcctrlProps) (keys : Keys) (w : World)
  (body : RigidBody) (model : Group) (delta : R) :
  characterRef_current w = Some body ->
  characterModelRef_current w = Some model ->
  0 <= camFollowMult (destructure p) ->
  0 <= delta ->
  exists w',
    useFrame_callback p keys w delta = Returned w'
    /\ Rmin (THREE.x (position (pivot w))) (THREE.x (pivotPosition w'))
       <= THREE.x (position (pivot w'))
       <= Rmax (THREE.x (position (pivot w))) (THREE.x (pivotPosition w'))
    /\ Rmin (THREE.y (position (pivot w))) (THREE.y (pivotPosition w'))
       <= THREE.y (position (pivot w'))
       <= Rmax (THREE.y (position (pivot w))) (THREE.y (pivotPosition w'))
    /\ Rmin (THREE.z (position (pivot w))) (THREE.z (pivotPosition w'))
       <= THREE.z (position (pivot w'))
       <= Rmax (THREE.z (position (pivot w))) (THREE.z (pivotPosition w'))
    /\ THREE.distanceTo (position (pivot w')) (pivotPosition w')
       <= THREE.distanceTo (position (pivot w)) (pivotPosition w').
Proof.
  intros Hb Hm Hk Hd.
  destruct (callback_returns p keys w body model delta Hb Hm)
    as (w' & Hret & _ & _ & Hpp & Hpos & _).
  exists w'. split; [exact Hret|]. rewrite Hpos, Hpp.
  assert (Hf : 0 <= followFactor (destructure p) delta <= 1).
  { unfold followFactor.
    pose proof (exp_pos (- camFollowMult (destructure p) * delta)) as He.
    assert (Hle : exp (- camFollowMult (destructure p) * delta) <= 1).
    { rewrite <- exp_0.
      destruct (Req_dec (- camFollowMult (destructure p) * delta) 0) as [-> | Hne].
      - lra.
      - left. apply exp_increasing. nra. }
    lra. }
  cbn [THREE.lerp THREE.x THREE.y THREE.z].
  repeat split; try (apply between_step; exact Hf).
  rewrite lerp_distance, Rabs_pos_eq by lra.
  pose proof (distanceTo_nonneg (position (pivot w))
                (pivotTarget (destructure p) (translation body))).
  nra.
Qed.

Lemma sum_squares_zero (a b c : R) :
  a * a + b * b + c * c = 0 -> a = 0 /\ b = 0 /\ c = 0.
Proof.
  intros Hsum.
  pose proof (Rle_0_sqr a) as Ha. pose proof (Rle_0_sqr b) as Hb.
  pose proof (Rle_0_sqr c) as Hc. unfold Rsqr in *.
  repeat split; apply Rsqr_0_uniq; unfold Rsqr; lra.
Qed.

Lemma distanceTo_zero (p t : THREE.Vector3) :
  THREE.distanceTo p t = 0 -> p = t.
Proof.
  unfold THREE.distanceTo. intros Hzero.
  apply sqrt_eq_0 in Hzero.
  - apply sum_squares_zero in Hzero as (Hx & Hy & Hz).
    destruct p as [px py pz], t as [tx ty tz].
    cbn [THREE.x THREE.y THREE.z] in *. f_equal; lra.
  - pose proof (Rle_0_sqr (THREE.x p - THREE.x t)).
    pose proof (Rle_0_sqr (THREE.y p - THREE.y t)).
    pose proof (Rle_0_sqr (THREE.z p - THREE.z t)).
    unfold Rsqr in *. lra.
Qed.

(** X10.  The edges of the follow rate.  When [camFollowMult * delta] is 0
    (a zero multiplier, or a frame of no duration) a frame that runs to its
    end leaves the pivot where it was.  When it is negative the frame
    pushes the pivot away: unless the pivot sits on the target already, its
    distance to the target grows strictly. *)
Theorem pivot_follow_rate_edges
  (p : EcctrlProps) (keys : Keys) (w : World)
  (body : RigidBody) (model : Group) (delta : R) :
  characterRef_current w = Some body ->
  characterModelRef_current w = Some model ->
  exists w',
    useFrame_callback p keys w delta = Returned w'
    /\ (camFollowMult (destructure p) * delta = 0 ->
        position (pivot w') = position (pivot w))
    /\ (camFollowMult (destructure p) * delta < 0 ->
        position (pivot w) <> pivotPosition w' ->
        THREE.distanceTo (position (pivot w)) (pivotPosition w')
        < THREE.distanceTo (position (pivot w')) (pivotPosition w')).
Proof.
  intros Hb Hm.
  destruct (callback_returns p keys w body model delta Hb Hm)
    as (w' & Hret & _ & _ & Hpp & Hpos & _).
  exists w'. split; [exact Hret|]. rewrite Hpos, Hpp. split.
  - intros Hz. unfold followFactor.
    replace (- camFollowMult (destructure p) * delta) with 0 by lra.
    rewrite exp_0. unfold THREE.lerp.
    destruct (position (pivot w)) as [px py pz]. cbn [THREE.x THREE.y THREE.z].
    f_equal; ring.
  - intros Hneg Hne.
    set (T := pivotTarget (destructure p) (translation body)) in *.
    assert (Hgt : 1 < exp (- camFollowMult (destructure p) * delta)).
    { rewrite <- exp_0. apply exp_increasing. lra. }
    rewrite lerp_distance. unfold followFactor.
    replace (1 - (1 - exp (- camFollowMult (destructure p) * delta)))
      with (exp (- camFollowMult (destructure p) * delta)) by ring.
    rewrite Rabs_pos_eq by lra.
    assert (HD : 0 < THREE.distanceTo (position (pivot w)) T).
    { destruct (distanceTo_nonneg (position (pivot w)) T) as [Hpos'|Hzero];
        [exact Hpos'|].
      exfalso. apply Hne. symmetry in Hzero.
      exact (distanceTo_zero _ _ Hzero). }
    nra.
Qed.

End Frames.

(** ** The eight facings *)

(** X11.  Whatever the flags, [getMovingDirection] returns [null] or the
    pivot yaw plus a whole number [k] of eighths of a turn, with
    [-2 <= k <= 5] (the result is not reduced to one turn); and each of the
    eight eighths, counted modulo a full turn, is returned for some flags. *)
Theorem getMovingDirection_compass (f b l r : bool) (pivot : Object3D) :
  (getMovingDirection f b l r pivot = JNull
   \/ exists k : Z,
        (-2 <= k <= 5)%Z
        /\ getMovingDirection f b l r pivot
           = JNumber (rotation_y pivot + IZR k * (PI / 4)))
  /\ (forall m : Z,
        (0 <= m < 8)%Z ->
        exists (f' b' l' r' : bool) (k : Z),
          getMovingDirection f' b' l' r' pivot
          = JNumber (rotation_y pivot + IZR k * (PI / 4))
          /\ (k mod 8 = m)%Z).
Proof.
  split.
  - destruct f, b, l, r; cbn;
      first
        [ left; reflexivity
        | right; exists 1%Z; split; [lia | f_equal; lra]
        | right; exists (-1)%Z; split; [lia | f_equal; lra]
        | right; exists 3%Z; split; [lia | f_equal; lra]
        | right; exists 5%Z; split; [lia | f_equal; lra]
        | right; exists 4%Z; split; [lia | f_equal; lra]
        | right; exists 2%Z; split; [lia | f_equal; lra]
        | right; exists (-2)%Z; split; [lia | f_equal; lra]
        | right; exists 0%Z; split; [lia | f_equal; lra] ].
  - intros m Hm.
    assert (Hcases : (m = 0 \/ m = 1 \/ m = 2 \/ m = 3 \/ m = 4 \/ m = 5
                      \/ m = 6 \/ m = 7)%Z) by lia.
    destruct Hcases as [-> | [-> | [-> | [-> | [-> | [-> | [-> | ->]]]]]]].
    + exists true, false, false, false, 0%Z.
      split; [cbn; f_equal; lra | reflexivity].
    + exists true, false, true, false, 1%Z.
      split; [cbn; f_equal; lra | reflexivity].
    + exists false, false, true, false, 2%Z.
      split; [cbn; f_equal; lra | reflexivity].
    + exists false, true, true, false, 3%Z.
      split; [cbn; f_equal; lra | reflexivity].
    + exists false, true, false, false, 4%Z.
      split; [cbn; f_equal; lra | reflexivity].
    + exists false, true, false, true, 5%Z.
      split; [cbn; f_equal; lra | reflexivity].
    + exists false, false, false, true, (-2)%Z.
      split; [cbn; f_equal; lra | reflexivity].
    + exists true, false, false, true, (-1)%Z.
      split; [cbn; f_equal; lra | reflexivity].
Qed.

(** ** The rigid body element *)

Lemma get_set_same (key : String.string) (v : PropValue) (o : JsObject) :
  get (set key v o) key = v.
Proof.
  induction o as [|[k v'] rest IH]; cbn.
  - now rewrite String.eqb_refl.
  - destruct (String.eqb k key) eqn:Hk; cbn; rewrite Hk; [reflexivity|exact IH].
Qed.

Lemma get_set_other
  (key key' : String.string) (v : PropValue) (o : JsObject) :
  key' <> key -> get (set key' v o) key = get o key.
Proof.
  intros Hne. induction o as [|[k v'] rest IH]; cbn.
  - apply String.eqb_neq in Hne. now rewrite Hne.
  - destruct (String.eqb k key') eqn:Hk; cbn.
    + apply String.eqb_eq in Hk. subst k.
      apply String.eqb_neq in Hne. now rewrite Hne.
    + destruct (String.eqb k key); [reflexivity|exact IH].
Qed.

Lemma has_absent (o : JsObject) (key : String.string) :
  ~ In key (keysOf o) -> has o key = false.
Proof.
  induction o as [|[k v] rest IH]; cbn; [reflexivity|].
  intros Hnot. destruct (String.eqb k key) eqn:Hk.
  - apply String.eqb_eq in Hk. tauto.
  - apply IH. tauto.
Qed.

Lemma get_absent (o : JsObject) (key : String.string) :
  has o key = false -> get o key = PUndefined.
Proof.
  induction o as [|[k v] rest IH]; cbn; [reflexivity|].
  destruct (String.eqb k key); [discriminate | exact IH].
Qed.

(** After a spread, a key of the source reads as in the source and any
    other key as in the target. *)
Lemma get_spread (source : JsObject) (key : String.string) :
  NoDup (keysOf source) ->
  forall target : JsObject,
    get (spread source target) key
    = if has source key then get source key else get target key.
Proof.
  unfold spread.
  induction source as [|[k v] rest IH]; intros Hnd target; [reflexivity|].
  cbn [fold_left fst snd keysOf map] in *.
  inversion Hnd as [|? ? Hnotin Hnd']; subst.
  rewrite (IH Hnd'). cbn [has get].
  destruct (String.eqb k key) eqn:Hk.
  - apply String.eqb_eq in Hk. subst k.
    rewrite (has_absent rest key Hnotin). apply get_set_same.
  - destruct (has rest key); [reflexivity|].
    apply get_set_other. now apply String.eqb_neq.
Qed.

(** X12.  For well-formed leftover props, every prop the parent passes
    reaches the [<RigidBody>] element as passed, whatever its value: a
    friction of 0, [lockRotations] false, even an explicit [undefined]
    replace what the element wrote before the spread.  The values written
    there stand only for keys the parent leaves out: friction -0.5, position
    (0, 5, 0), colliders false, lockRotations true. *)
Theorem rigidBodyProps_parent_wins (props : JsObject) :
  NoDup (keysOf props) ->
  (forall key,
     has props key = true ->
     get (rigidBodyProps props) key = get props key)
  /\ (has props "friction"%string = false ->
      get (rigidBodyProps props) "friction"%string = PNumber (- (5 / 10)))
  /\ (has props "position"%string = false ->
      get (rigidBodyProps props) "position"%string = PArray [0; 5; 0])
  /\ (has props "colliders"%string = false ->
      get (rigidBodyProps props) "colliders"%string = PBoolean false)
  /\ (has props "lockRotations"%string = false ->
      get (rigidBodyProps props) "lockRotations"%string = PBoolean true).
Proof.
  intros Hnd. unfold rigidBodyProps.
  split; [intros key Hin | repeat split; intros Hout];
    rewrite (get_spread props _ Hnd).
  - now rewrite Hin.
  - rewrite Hout. cbn. now rewrite (get_absent props _ Hout).
  - rewrite Hout. cbn. now rewrite (get_absent props _ Hout).
  - now rewrite Hout.
  - now rewrite Hout.
Qed.

(** ** The further theorems applied to concrete frames *)

(** X2 on two frames without a model node: the first one throws. *)
Lemma frames_facing_stays_number_witness :
  euler_y (modelEuler modellessWorld) = JNumber 0
  /\ exists t,
       euler_y
         (modelEuler
            (worldOf (frames noProps (1 / 60) [forwardLeft; noKeys]
                        modellessWorld)))
       = JNumber t.
Proof.
  split; [reflexivity|].
  exact (frames_facing_stays_number noProps (1 / 60) [forwardLeft; noKeys]
           modellessWorld 0 eq_refl).
Defined.

(** X3 on four frames: forward, then forward with leftward, then two
    frames without a direction. *)
Lemma frames_facing_last_direction_witness :
  characterRef_current readyWorld = Some restBody
  /\ characterModelRef_current readyWorld = Some yawModel
  /\ hasDirection forwardLeft = true
  /\ Forall (fun k => hasDirection k = false) [noKeys; jumpRun]
  /\ euler_y
       (modelEuler
          (worldOf
             (frames noProps (1 / 60)
                ([forwardOnly] ++ forwardLeft :: [noKeys; jumpRun])
                readyWorld)))
     = JNumber (0 + PI / 4).
Proof.
  assert (Hidle : Forall (fun k => hasDirection k = false) [noKeys; jumpRun])
    by (repeat constructor).
  split; [reflexivity|]. split; [reflexivity|]. split; [reflexivity|].
  split; [exact Hidle|].
  exact (frames_facing_last_direction noProps (1 / 60) [forwardOnly]
           [noKeys; jumpRun] forwardLeft readyWorld restBody yawModel
           eq_refl eq_refl eq_refl Hidle).
Defined.

(** X4 on the frame with forward and run held. *)
Lemma horizontal_velocity_values_witness :
  characterRef_current readyWorld = Some restBody
  /\ exists body',
       characterRef_current
         (worldOf (useFrame_callback noProps forwardRun readyWorld (1 / 60)))
       = Some body'
       /\ (THREE.z (linvel body') = 0 \/ THREE.z (linvel body') = 1
           \/ THREE.z (linvel body') = - 1
           \/ THREE.z (linvel body')
              = sqrt 2 * (speed / 2) * (1 / 60)
                * sprintMult (destructure noProps)
           \/ THREE.z (linvel body')
              = - (sqrt 2 * (speed / 2) * (1 / 60)
                   * sprintMult (destructure noProps))).
Proof.
  split; [reflexivity|].
  destruct (horizontal_velocity_values noProps forwardRun readyWorld restBody
              (1 / 60) eq_refl)
    as (body' & Hb & Hvalues & _).
  exists body'. split; [exact Hb|].
  apply Hvalues. right. reflexivity.
Defined.

(** X5 with the default sprint multiplier 2 at 240 frames a second:
    sprinting forward is slower than walking. *)
Lemma sprint_velocity_scales_with_frame_time_witness :
  run forwardRun = true
  /\ hasDirection forwardRun = true
  /\ Rabs (THREE.z (impulse (destructure noProps) forwardRun (1 / 240) 0)) < 1.
Proof.
  split; [reflexivity|]. split; [reflexivity|].
  destruct (sprint_velocity_scales_with_frame_time noProps forwardRun
              (1 / 240) 0 eq_refl eq_refl)
    as (_ & Hslow).
  apply Hslow.
  - lra.
  - cbn. lra.
  - cbn. pose proof sqrt2_bounds. lra.
Defined.

(** X6 on the frame with forward and leftward held. *)
Lemma velocity_opposes_facing_offset_witness :
  characterRef_current readyWorld = Some restBody
  /\ hasDirection forwardLeft = true
  /\ forwardBackwardAlone forwardLeft = false
  /\ 0 <= runSpeed (destructure noProps) forwardLeft (1 / 60)
  /\ exists body' t,
       characterRef_current
         (worldOf (useFrame_callback noProps forwardLeft readyWorld (1 / 60)))
       = Some body'
       /\ euler_y
            (modelEuler
               (worldOf
                  (useFrame_callback noProps forwardLeft readyWorld (1 / 60))))
          = JNumber t
       /\ THREE.x (linvel body')
          = - planarMagnitude (linvel body')
            * sin (t - rotation_y (pivot readyWorld))
       /\ THREE.z (linvel body')
          = - planarMagnitude (linvel body')
            * cos (t - rotation_y (pivot readyWorld)).
Proof.
  assert (Hs : 0 <= runSpeed (destructure noProps) forwardLeft (1 / 60))
    by (rewrite runSpeed_walking by reflexivity; lra).
  split; [reflexivity|]. split; [reflexivity|]. split; [reflexivity|].
  split; [exact Hs|].
  exact (velocity_opposes_facing_offset noProps forwardLeft readyWorld
           restBody (1 / 60) eq_refl eq_refl eq_refl Hs).
Defined.

(** X7 on the frame with forward and backward held. *)
Lemma forward_backward_faces_back_moves_forward_witness :
  characterRef_current readyWorld = Some restBody
  /\ forwardBackwardAlone forwardBackward = true
  /\ exists body',
       characterRef_current
         (worldOf
            (useFrame_callback noProps forwardBackward readyWorld (1 / 60)))
       = Some body'
       /\ euler_y
            (modelEuler
               (worldOf
                  (useFrame_callback noProps forwardBackward readyWorld
                     (1 / 60))))
          = JNumber (rotation_y (pivot readyWorld) + PI)
       /\ THREE.z (linvel body')
          = - runSpeed (destructure noProps) forwardBackward (1 / 60).
Proof.
  split; [reflexivity|]. split; [reflexivity|].
  destruct (forward_backward_faces_back_moves_forward noProps forwardBackward
              readyWorld restBody (1 / 60) eq_refl eq_refl)
    as (body' & Hb & Hface & _ & Hz & _).
  exists body'. repeat split; assumption.
Defined.

(** X8 with a frame of 1/60 and one of 1/30 against a frame of their sum. *)
Lemma pivot_follow_frame_split_witness :
  characterRef_current readyWorld = Some restBody
  /\ characterModelRef_current readyWorld = Some yawModel
  /\ exists w1 w2 w3,
       useFrame_callback noProps forwardOnly readyWorld (1 / 60) = Returned w1
       /\ useFrame_callback noProps noKeys w1 (1 / 30) = Returned w2
       /\ useFrame_callback noProps jumpRun readyWorld (1 / 60 + 1 / 30)
          = Returned w3
       /\ position (pivot w2) = position (pivot w3).
Proof.
  split; [reflexivity|]. split; [reflexivity|].
  exact (pivot_follow_frame_split noProps forwardOnly noKeys jumpRun
           readyWorld restBody yawModel (1 / 60) (1 / 30) eq_refl eq_refl).
Defined.

(** X9 with the default follow multiplier at 60 frames a second. *)
Lemma pivot_follow_no_overshoot_witness :
  characterRef_current readyWorld = Some restBody
  /\ characterModelRef_current readyWorld = Some yawModel
  /\ 0 <= camFollowMult (destructure noProps)
  /\ 0 <= 1 / 60
  /\ exists w',
       useFrame_callback noProps noKeys readyWorld (1 / 60) = Returned w'
       /\ THREE.distanceTo (position (pivot w')) (pivotPosition w')
          <= THREE.distanceTo (position (pivot readyWorld)) (pivotPosition w').
Proof.
  assert (Hk : 0 <= camFollowMult (destructure noProps)) by (cbn; lra).
  assert (Hd : 0 <= 1 / 60) by lra.
  split; [reflexivity|]. split; [reflexivity|].
  split; [exact Hk|]. split; [exact Hd|].
  destruct (pivot_follow_no_overshoot noProps noKeys readyWorld restBody
              yawModel (1 / 60) eq_refl eq_refl Hk Hd)
    as (w' & Hret & _ & _ & _ & Hdist).
  exists w'. split; assumption.
Defined.

(** X10 with a follow multiplier of 0: the pivot stays. *)
Lemma pivot_follow_rate_edges_witness :
  characterRef_current readyWorld = Some restBody
  /\ characterModelRef_current readyWorld = Some yawModel
  /\ exists w',
       useFrame_callback (followProps 0) noKeys readyWorld (1 / 60)
       = Returned w'
       /\ position (pivot w') = position (pivot readyWorld).
Proof.
  split; [reflexivity|]. split; [reflexivity|].
  destruct (pivot_follow_rate_edges (followProps 0) noKeys readyWorld restBody
              yawModel (1 / 60) eq_refl eq_refl)
    as (w' & Hret & Hzero & _).
  exists w'. split; [exact Hret|].
  apply Hzero. cbn. lra.
Defined.

(** X12 for a parent that passes friction 0 and a position. *)
Lemma rigidBodyProps_parent_wins_witness :
  NoDup (keysOf frictionlessProps)
  /\ get (rigidBodyProps frictionlessProps) "friction"%string = PNumber 0
  /\ get (rigidBodyProps frictionlessProps) "lockRotations"%string
     = PBoolean true.
Proof.
  assert (Hnd : NoDup (keysOf frictionlessProps)).
  { repeat constructor; cbn; intuition discriminate. }
  split; [exact Hnd|].
  destruct (rigidBodyProps_parent_wins frictionlessProps Hnd)
    as (Hin & _ & _ & _ & Hlock).
  split.
  - exact (Hin "friction"%string eq_refl).
  - exact (Hlock eq_refl).
Defined.
